(** * Laser: packed evaluation scores, evaluation tables and transposition-table entries

    A shallow embedding of [src/src/eval.h] (both instantiations of the
    header) and [src/src/hash.h].  C integer types are modelled as [Z] with
    their wrap-around written out. *)

From Stdlib Require Import ZArith List Lia Bool Permutation.
Import ListNotations.
Open Scope Z_scope.

(** ** C integer conversions *)
Module CInt.

(** Conversion to an unsigned [w]-bit integer (always modular in C++). *)
Definition uw (w x : Z) : Z := x mod 2 ^ w.

(** Conversion to a signed [w]-bit integer: two's complement, as gcc
    implements the (implementation-defined, C++11) narrowing. *)
Definition sw (w x : Z) : Z :=
  let y := x mod 2 ^ w in
  if y <? 2 ^ (w - 1) then y else y - 2 ^ w.

Definition u32 := uw 32.
Definition i32 := sw 32.
Definition i16 := sw 16.
Definition u8 := uw 8.
Definition i8 := sw 8.

End CInt.
Import CInt.

(** ** The packed (SWAR) evaluation score of [eval.h] *)
Module Packed.

(** [typedef uint32_t Score;] *)
Definition Score := Z.

(** [#define E(mg, eg) ((Score) ((int32_t) (((uint32_t) eg) << 16) + ((int32_t) mg)))]
    The [int32_t] addition is modelled with wrap-around, which is what gcc
    produces when it overflows (possible only for [eg = -32768], [mg < 0]). *)
Definition E (mg eg : Z) : Score :=
  u32 (i32 (i32 (u32 (Z.shiftl (u32 eg) 16)) + i32 mg)).

(** [inline int decEvalMg(Score encodedValue)] *)
Definition decEvalMg (encodedValue : Score) : Z :=
  Z.land encodedValue 0xFFFF - 0x8000.

(** [inline int decEvalEg(Score encodedValue)] *)
Definition decEvalEg (encodedValue : Score) : Z :=
  Z.shiftr encodedValue 16 - 0x8000.

(** [constexpr Score EVAL_ZERO = 0x80008000;] *)
Definition EVAL_ZERO : Score := 0x80008000.

(** [Score += Score]: unsigned 32-bit addition. *)
Definition addScore (a b : Score) : Score := u32 (a + b).

(** The evaluator's accumulation: starting from [EVAL_ZERO], each feature term
    [E(mg, eg)] is added to the running [Score]. *)
Definition accumulate (terms : list (Z * Z)) : Score :=
  fold_left (fun acc '(mg, eg) => addScore acc (E mg eg)) terms EVAL_ZERO.

Definition sum_mg (terms : list (Z * Z)) : Z := fold_right (fun t s => fst t + s) 0 terms.
Definition sum_eg (terms : list (Z * Z)) : Z := fold_right (fun t s => snd t + s) 0 terms.

(** A value fits one biased half without cross-contamination. *)
Definition in_half (x : Z) : bool := (-32767 <=? x) && (x <=? 32767).

(** Every running half-sum (after each added term) stays within [±32767]. *)
Fixpoint running_ok (sm se : Z) (terms : list (Z * Z)) : bool :=
  match terms with
  | [] => true
  | (mg, eg) :: rest =>
      in_half (sm + mg) && in_half (se + eg) && running_ok (sm + mg) (se + eg) rest
  end.

End Packed.

(** ** Array lookups and the half-board piece-square tables *)
Module EvalCommon.
Import Packed.

(** C aggregate initialisation of a [T[n]] array from a brace list with at
    most [n] clauses: the missing trailing elements are zero-initialised. *)
Definition init_array (n : nat) (clauses : list Z) : list Z :=
  firstn n (clauses ++ repeat 0 n).

(** [a[i]] for an in-range index [i]. *)
Definition nthZ {A} (a : list A) (d : A) (i : Z) : A := nth (Z.to_nat i) a d.

(** Colours and phases ([common.h], [eval.h]). *)
Definition WHITE : Z := 0.
Definition BLACK : Z := 1.
Definition MG : nat := 0.
Definition EG : nat := 1.

Definition rankOf (sq : Z) : Z := Z.shiftr sq 3.
Definition fileOf (sq : Z) : Z := Z.land sq 7.

(** The horizontal (file) mirror of a square: file [f] becomes [7 - f]. *)
Definition mirrorSq (sq : Z) : Z := 8 * rankOf sq + (7 - fileOf sq).

(** Modelled from the spec: the expansion of the 32-entry half-board
    [pieceSquareTable] to the 64 squares is done in [eval.cpp], which is not
    among the sources.  Following the spec ("piece-square tables (symmetric
    across files)", 32 entries = 8 rows of 4), a square of rank [r] and file
    [f] reads row [r] (counted from the colour's far side) and column
    [min(f, 7 - f)]. *)
Definition halfBoardIndex (color sq : Z) : Z :=
  let r := rankOf sq in
  let f := fileOf sq in
  let row := if color =? WHITE then 7 - r else r in
  4 * row + (if f <? 4 then f else 7 - f).

Definition psqt (pst : list (list (list Z))) (phase piece : nat) (color sq : Z) : Z :=
  nthZ (nth piece (nth phase pst []) []) 0 (halfBoardIndex color sq).

(** The table-driven terms of a position: every piece [(color, piece, sq)]
    contributes its piece-square value and every passed pawn [(color, sq)] its
    [PASSER_FILE_BONUS[file]]; white terms are added to the accumulator and
    black terms subtracted, in [Score] (unsigned 32-bit) arithmetic. *)
Definition subScore (a b : Score) : Score := u32 (a - b).

Definition addSided (color : Z) (acc t : Score) : Score :=
  if color =? WHITE then addScore acc t else subScore acc t.

Definition pieceTerm (pst : list (list (list Z))) (acc : Score) (x : Z * nat * Z) : Score :=
  let '(color, piece, sq) := x in
  addSided color acc (E (psqt pst MG piece color sq) (psqt pst EG piece color sq)).

Definition passerTerm (pfb : list Score) (acc : Score) (x : Z * Z) : Score :=
  let '(color, sq) := x in
  addSided color acc (nthZ pfb 0 (fileOf sq)).

Definition tableScore (pst : list (list (list Z))) (pfb : list Score)
    (pieces : list (Z * nat * Z)) (passers : list (Z * Z)) : Score :=
  fold_left (passerTerm pfb) passers (fold_left (pieceTerm pst) pieces EVAL_ZERO).

Definition mirrorPieces (pieces : list (Z * nat * Z)) : list (Z * nat * Z) :=
  map (fun '(c, p, sq) => (c, p, mirrorSq sq)) pieces.

Definition mirrorPassers (passers : list (Z * Z)) : list (Z * Z) :=
  map (fun '(c, sq) => (c, mirrorSq sq)) passers.

(** Modelled from the spec ("Drawish endgames reduce the absolute score by a
    scale factor <= MAX_SCALE"): the factor is applied in [eval.cpp] as
    [score * factor / MAX_SCALE_FACTOR] with C's truncating division. *)
Definition scaleScore (maxScale score factor : Z) : Z := Z.quot (score * factor) maxScale.

End EvalCommon.

(** ** Instantiation 1 of [eval.h] *)
Module Inst1.
Import Packed EvalCommon.

(** [constexpr int PIECE_VALUES[2][5]] *)
Definition PIECE_VALUES : list (list Z) := [[100; 405; 445; 683; 1343]; [135; 401; 454; 741; 1444]].

(** [constexpr int pieceSquareTable[2][6][32]] as written: phase, then piece
    type, then 32 initializer clauses (4 per row). *)
Definition pieceSquareTable_src : list (list (list Z)) := [
(* Midgame *)
[
  [ (* Pawns *)
      0;    0;    0;    0;
     21;    6;   32;   44;
      7;   12;   31;   39;
     -2;    2;    2;   18;
    -12;   -4;    2;   12;
     -9;   -1;    0;    2;
     -5;    6;   -1;    0;
      0;    0;    0;    0
  ];
  [ (* Knights *)
   -128;  -40;  -37;  -29;
    -26;  -11;    0;   15;
     -8;    7;   17;   27;
     15;   10;   26;   29;
      4;    8;   20;   24;
    -11;    5;    3;   15;
    -17;  -12;   -6;    4;
    -55;  -16;  -13;  -10
  ];
  [ (* Bishops *)
    -23;  -22;  -18;  -16;
    -22;  -18;  -10;   -8;
      9;    5;    1;    2;
      0;   16;    8;   14;
      4;   10;    6;   14;
      2;   14;    5;    6;
      6;    5;   10;    5;
    -11;    5;   -5;   -1
  ];
  [ (* Rooks *)
     -5;    0;    0;    0;
      5;   10;   10;   10;
     -5;    0;    0;    0;
     -5;    0;    0;    0;
     -5;    0;    0;    0;
     -5;    0;    0;    0;
     -5;    0;    0;    0;
     -5;    0;    0;    0
  ];
  [ (* Queens *)
    -25;  -21;  -15;   -5;
    -16;  -21;   -7;   -6;
     -8;   -3;    0;    2;
     -5;   -3;   -3;   -3;
     -3;    0;   -3;   -3;
     -6;    5;   -1;   -2;
    -12;    1;    3;    2;
    -16;  -16;  -10;    2
  ];
  [ (* Kings *)
    -37;  -32;  -34;  -45;
    -34;  -28;  -32;  -38;
    -32;  -24;  -28;  -30;
    -31;  -25;  -30;  -31;
    -35;  -15;  -32;  -32;
     -7;   21;  -15;  -23;
     38;   50;    6;  -14;
     35;   61;   26;   -9
  ]
];
(* Endgame *)
[
  [ (* Pawns *)
      0;    0;    0;    0;
     28;   28;   30;   30;
     24;   26;   20;   20;
      8;    6;    2;    2;
     -5;   -2;   -2;   -2;
    -12;   -3;    0;    0;
    -12;   -3;    2;    2;
      0;    0;    0;    0
  ];
  [ (* Knights *)
    -65;  -28;  -19;   -8;
    -15;    3;    6;   13;
      5;    9;   17;   22;
      9;   14;   22;   27;
      3;   11;   16;   21;
     -7;    3;    7;   14;
    -10;    0;   -3;    6;
    -27;  -11;   -7;    0
  ];
  [ (* Bishops *)
    -12;  -10;   -7;   -8
      - 7;   -4;   -4;   -2;
     -2;    2;    3;    0;
      2;    2;    0;    4;
     -3;    0;    2;    2;
     -5;   -1;    5;    2;
     -8;   -4;   -2;   -2;
    -13;  -12;   -4;    0
  ];
  [ (* Rooks *)
      0;    0;    0;    0;
      0;    0;    0;    0;
      0;    0;    0;    0;
      0;    0;    0;    0;
      0;    0;    0;    0;
      0;    0;    0;    0;
      0;    0;    0;    0;
      0;    0;    0;    0
  ];
  [ (* Queens *)
    -18;   -9;   -1;   -1;
     -9;    5;   10;   16;
     -2;   13;   18;   22;
      0;   16;   20;   26;
      0;   16;   20;   24;
     -4;    4;    8;   10;
    -19;  -14;  -12;   -8;
    -26;  -23;  -23;  -18
  ];
  [ (* Kings *)
    -74;  -20;  -17;  -12;
    -13;   20;   28;   28;
      8;   32;   38;   40;
     -3;   19;   28;   30;
    -13;   10;   20;   22;
    -20;   -2;   11;   16;
    -32;  -12;    2;    4;
    -70;  -37;  -25;  -20
  ]
]
].

(** The compiled table: every [int[32]] row is aggregate-initialised. *)
Definition pieceSquareTable : list (list (list Z)) :=
  map (map (init_array 32)) pieceSquareTable_src.

(** [pieceSquareTable[EG][BISHOPS]] *)
Definition egBishops : list Z := nth 2 (nth EG pieceSquareTable []) [].

(** The endgame bishop table with its first row terminated by the comma it
    lacks in the source (the 32 values as laid out in the rows). *)
Definition egBishops_intended : list Z := [
    -12;  -10;   -7;   -8;
     -7;   -4;   -4;   -2;
     -2;    2;    3;    0;
      2;    2;    0;    4;
     -3;    0;    2;    2;
     -5;   -1;    5;    2;
     -8;   -4;   -2;   -2;
    -13;  -12;   -4;    0
].

(** [constexpr Score PASSER_FILE_BONUS[8]] *)
Definition PASSER_FILE_BONUS : list Score := [E 18 17; E 11 14; E (-12) 1; E (-14) (-8); E (-14) (-8); E (-12) 1; E 11 14; E 18 17].

(** [constexpr int KING_TROPISM_VALUE] *)
Definition KING_TROPISM_VALUE : Z := 18.

(** Scale factors for drawish endgames *)
Definition MAX_SCALE_FACTOR : Z := 32.
Definition OPPOSITE_BISHOP_SCALING : list Z := [13; 29].
Definition PAWNLESS_SCALING : list Z := [1; 4; 8; 23].

End Inst1.

(** ** Instantiation 2 of [eval.h] *)
Module Inst2.
Import Packed EvalCommon.

(** [constexpr int PIECE_VALUES[2][5]] *)
Definition PIECE_VALUES : list (list Z) := [[100; 396; 438; 681; 1349]; [134; 407; 451; 746; 1441]].

(** [constexpr int pieceSquareTable[2][6][32]] as written: phase, then piece
    type, then 32 initializer clauses (4 per row). *)
Definition pieceSquareTable_src : list (list (list Z)) := [
(* Midgame *)
[
  [ (* Pawns *)
      0;    0;    0;    0;
     18;   10;   28;   42;
      8;   15;   30;   35;
     -2;    5;    2;   16;
    -12;   -4;    2;    9;
    -10;   -1;    0;    2;
     -6;    6;   -1;    0;
      0;    0;    0;    0
  ];
  [ (* Knights *)
   -128;  -44;  -37;  -32;
    -26;  -16;   -1;   14;
     -5;    7;   17;   32;
     12;   10;   26;   30;
      5;   10;   18;   22;
    -13;    6;    6;   16;
    -17;  -10;   -6;    3;
    -50;  -16;  -11;   -8
  ];
  [ (* Bishops *)
    -16;  -20;  -15;  -15;
    -20;  -15;  -10;   -8;
     10;    5;    1;    2;
      0;   12;    5;   15;
      5;    6;    6;   16;
      1;   10;   -3;    8;
      5;    3;   10;    2;
    -10;    3;   -5;   -2
  ];
  [ (* Rooks *)
     -5;    0;    0;    0;
      5;   10;   10;   10;
     -5;    0;    0;    0;
     -5;    0;    0;    0;
     -5;    0;    0;    0;
     -5;    0;    0;    0;
     -5;    0;    0;    0;
     -5;    0;    0;    0
  ];
  [ (* Queens *)
    -25;  -21;  -10;   -5;
    -13;  -24;   -9;   -8;
     -8;    0;    0;    2;
     -5;   -3;   -3;   -6;
     -3;    0;   -3;   -6;
     -6;    5;   -1;   -2;
    -10;    2;    4;    2;
    -16;  -16;  -10;   -2
  ];
  [ (* Kings *)
    -37;  -32;  -34;  -45;
    -34;  -28;  -32;  -38;
    -32;  -24;  -28;  -30;
    -31;  -27;  -30;  -31;
    -35;  -20;  -32;  -32;
     -9;   20;  -17;  -23;
     35;   52;    9;  -14;
     34;   59;   21;  -10
  ]
];
(* Endgame *)
[
  [ (* Pawns *)
      0;    0;    0;    0;
     28;   28;   30;   30;
     26;   26;   20;   20;
      8;    8;    2;    2;
     -5;   -3;   -2;   -2;
    -12;   -3;    0;    0;
    -12;   -3;    2;    2;
      0;    0;    0;    0
  ];
  [ (* Knights *)
    -65;  -27;  -18;   -7;
    -10;    0;    6;   10;
      0;    5;   13;   18;
      4;   11;   18;   25;
      0;    9;   16;   24;
     -7;    3;    7;   17;
    -10;    0;   -3;    6;
    -31;  -14;   -8;    0
  ];
  [ (* Bishops *)
    -12;  -10;   -7;   -4
      - 8;   -7;    0;    0;
     -2;    2;    0;    1;
     -3;    2;    3;    1;
     -3;    0;    2;    2;
     -5;   -1;    0;    2;
     -8;   -6;   -3;   -2;
    -13;  -12;    0;   -2
  ];
  [ (* Rooks *)
      0;    0;    0;    0;
      0;    0;    0;    0;
      0;    0;    0;    0;
      0;    0;    0;    0;
      0;    0;    0;    0;
      0;    0;    0;    0;
      0;    0;    0;    0;
      0;    0;    0;    0
  ];
  [ (* Queens *)
    -14;   -5;   -1;   -1;
     -6;    5;   10;   16;
     -2;   13;   18;   22;
      0;   16;   20;   26;
      0;   16;   20;   24;
     -4;    4;    8;   10;
    -19;  -14;  -12;   -8;
    -26;  -23;  -23;  -18
  ];
  [ (* Kings *)
    -68;  -18;  -14;   -7;
    -12;   20;   28;   28;
      7;   34;   40;   42;
     -8;   25;   34;   36;
    -13;   14;   24;   27;
    -20;   -2;   10;   14;
    -26;   -7;    4;    6;
    -64;  -36;  -20;  -17
  ]
]
].

(** The compiled table: every [int[32]] row is aggregate-initialised. *)
Definition pieceSquareTable : list (list (list Z)) :=
  map (map (init_array 32)) pieceSquareTable_src.

(** [pieceSquareTable[EG][BISHOPS]] *)
Definition egBishops : list Z := nth 2 (nth EG pieceSquareTable []) [].

(** The endgame bishop table with its first row terminated by the comma it
    lacks in the source (the 32 values as laid out in the rows). *)
Definition egBishops_intended : list Z := [
    -12;  -10;   -7;   -4;
     -8;   -7;    0;    0;
     -2;    2;    0;    1;
     -3;    2;    3;    1;
     -3;    0;    2;    2;
     -5;   -1;    0;    2;
     -8;   -6;   -3;   -2;
    -13;  -12;    0;   -2
].

(** [constexpr Score PASSER_FILE_BONUS[8]] *)
Definition PASSER_FILE_BONUS : list Score := [E 15 17; E 8 11; E (-8) 1; E (-12) (-7); E (-12) (-7); E (-8) 1; E 8 11; E 15 17].

(** [constexpr int KING_TROPISM_VALUE] *)
Definition KING_TROPISM_VALUE : Z := 17.

(** Scale factors for drawish endgames *)
Definition MAX_SCALE_FACTOR : Z := 32.
Definition OPPOSITE_BISHOP_SCALING : list Z := [13; 29].
Definition PAWNLESS_SCALING : list Z := [1; 4; 8; 23].

End Inst2.

(** ** Transposition-table entries of [hash.h] *)
Module TT.

Definition PV_NODE : Z := 0.
Definition CUT_NODE : Z := 1.
Definition ALL_NODE : Z := 2.
Definition NO_NODE_INFO : Z := 3.

(** [Move] is the packed 16-bit move of [common.h]. *)
Definition Move := Z.

(** [struct HashData]; the [_pad] byte is never written by the constructor
    ([None] = indeterminate). *)
Record HashData := mkHashData {
  score : Z;        (* int16_t *)
  move : Move;
  nodeType : Z;     (* uint8_t *)
  age : Z;          (* uint8_t *)
  depth : Z;        (* int8_t *)
  _pad : option Z   (* int8_t *)
}.

(** [HashData(int _depth, Move _move, int _score, uint8_t _nodeType, uint8_t _age)]:
    [score = (int16_t) _score; ... depth = (int8_t) _depth;].  The [uint8_t]
    parameters receive their arguments converted to [uint8_t]. *)
Definition HashData_ctor (_depth : Z) (_move : Move) (_score : Z) (_nodeType _age : Z) : HashData :=
  {| score := i16 _score;
     move := _move;
     nodeType := u8 _nodeType;
     age := u8 _age;
     depth := i8 _depth;
     _pad := None |}.

(** [struct HashEntry] *)
Record HashEntry := mkHashEntry { zobristKey : Z; data : HashData }.

(** [class HashNode]: two slots. *)
Record HashNode := mkHashNode { slot1 : HashEntry; slot2 : HashEntry }.

End TT.

(** ** The table object [class Hash] *)
Module HashTable.
Import TT.

Record Hash := mkHash {
  table : list HashNode;
  size : Z;      (* uint64_t *)
  age : Z        (* uint8_t *)
}.

(** [int getAge() const { return age; }] *)
Definition getAge (h : Hash) : Z := age h.

(** Modelled from the spec: [Hash::incrementAge] is defined in [hash.cpp], not
    among the sources; the spec says [newSearch()] increments the age, and the
    [age] member is a [uint8_t], so the increment is stored modulo 256. *)
Definition incrementAge (h : Hash) : Hash :=
  {| table := table h; size := size h; age := u8 (age h + 1) |}.

End HashTable.

(** * Facts about the C integer conversions *)
Module CIntFacts.

Lemma sw_mod (w x : Z) : 0 < w -> sw w x mod 2 ^ w = x mod 2 ^ w.
Proof.
  intros Hw. unfold sw.
  assert (Hp : 0 < 2 ^ w) by (apply Z.pow_pos_nonneg; lia).
  destruct (x mod 2 ^ w <? 2 ^ (w - 1)).
  - apply Z.mod_mod; lia.
  - rewrite Zminus_mod, Z.mod_same, Z.sub_0_r, !Z.mod_mod by lia. reflexivity.
Qed.

Lemma u32_i32 (x : Z) : u32 (i32 x) = u32 x.
Proof. unfold u32, i32, uw. apply sw_mod. lia. Qed.

(** Signed narrowing is [x] shifted into the range [-2^(w-1), 2^(w-1)). *)
Lemma sw_spec (w x : Z) :
  0 < w -> sw w x = (x + 2 ^ (w - 1)) mod 2 ^ w - 2 ^ (w - 1).
Proof.
  intros Hw. unfold sw.
  assert (Hw2 : 2 ^ w = 2 * 2 ^ (w - 1)).
  { rewrite <- Z.pow_succ_r by lia. f_equal. lia. }
  assert (Hp : 0 < 2 ^ (w - 1)) by (apply Z.pow_pos_nonneg; lia).
  rewrite Hw2.
  pose proof (Z.mod_pos_bound x (2 * 2 ^ (w - 1))) as Hb.
  rewrite (Z.add_mod x), (Z.mod_small (2 ^ (w - 1))) by lia.
  set (y := x mod (2 * 2 ^ (w - 1))) in *.
  destruct (Z.ltb_spec y (2 ^ (w - 1))).
  - rewrite (Z.mod_small (y + 2 ^ (w - 1))) by lia. lia.
  - rewrite <- (Z.mod_unique (y + 2 ^ (w - 1)) _ 1 (y + 2 ^ (w - 1) - 2 * 2 ^ (w - 1)))
      by lia. lia.
Qed.

Lemma sw_small (w x : Z) :
  0 < w -> - 2 ^ (w - 1) <= x < 2 ^ (w - 1) -> sw w x = x.
Proof.
  intros Hw Hx. rewrite sw_spec by lia.
  assert (Hw2 : 2 ^ w = 2 * 2 ^ (w - 1)).
  { rewrite <- Z.pow_succ_r by lia. f_equal. lia. }
  rewrite Hw2, Z.mod_small by lia. lia.
Qed.

Lemma sw_add_mod (w a b : Z) :
  0 < w -> (sw w a + sw w b) mod 2 ^ w = (a + b) mod 2 ^ w.
Proof.
  intros Hw.
  assert (Hp : 0 < 2 ^ w) by (apply Z.pow_pos_nonneg; lia).
  rewrite <- Z.add_mod_idemp_l, sw_mod, Z.add_mod_idemp_l by lia.
  rewrite <- Z.add_mod_idemp_r, sw_mod, Z.add_mod_idemp_r by lia.
  reflexivity.
Qed.

End CIntFacts.
Import CIntFacts.

(** * The packed accumulator *)
Module PackedFacts.
Import Packed.

Lemma two32 : 2 ^ 32 = 4294967296.
Proof. reflexivity. Qed.

(** [E(mg, eg)] is [eg * 2^16 + mg] modulo [2^32]. *)
Lemma E_mod (mg eg : Z) : E mg eg = (65536 * eg + mg) mod 2 ^ 32.
Proof.
  unfold E, u32, uw, i32.
  rewrite Z.shiftl_mul_pow2 by lia.
  rewrite sw_mod, sw_add_mod by lia.
  rewrite Z.mul_mod_idemp_l, Z.add_mod_idemp_l by lia.
  f_equal. lia.
Qed.

Lemma accumulate_from (terms : list (Z * Z)) (a : Z) :
  fold_left (fun acc '(mg, eg) => addScore acc (E mg eg)) terms (a mod 2 ^ 32)
  = (a + 65536 * sum_eg terms + sum_mg terms) mod 2 ^ 32.
Proof.
  revert a. induction terms as [| [mg eg] rest IH]; intros a;
    cbn [fold_left sum_mg sum_eg fold_right fst snd] in *.
  - f_equal. lia.
  - unfold addScore, u32, uw. rewrite E_mod.
    rewrite <- Z.add_mod by lia.
    rewrite IH. unfold sum_eg, sum_mg. f_equal. lia.
Qed.

Lemma accumulate_mod (terms : list (Z * Z)) :
  accumulate terms = (EVAL_ZERO + 65536 * sum_eg terms + sum_mg terms) mod 2 ^ 32.
Proof.
  unfold accumulate. rewrite <- accumulate_from.
  reflexivity.
Qed.

(** Layout of a biased pair: low half [mg + 2^15], high half [eg + 2^15]. *)
Lemma halves (sm se : Z) :
  -32768 <= sm <= 32767 -> -32768 <= se <= 32767 ->
  Z.land ((EVAL_ZERO + 65536 * se + sm) mod 2 ^ 32) 0xFFFF = sm + 0x8000 /\
  Z.shiftr ((EVAL_ZERO + 65536 * se + sm) mod 2 ^ 32) 16 = se + 0x8000.
Proof.
  intros Hm He. unfold EVAL_ZERO.
  rewrite two32.
  rewrite (Z.mod_small _ 4294967296) by lia.
  change 0xFFFF with (Z.ones 16).
  rewrite Z.land_ones, Z.shiftr_div_pow2 by lia.
  change (2 ^ 16) with 65536.
  split.
  - symmetry. apply (Z.mod_unique _ _ (se + 0x8000)); lia.
  - symmetry. apply (Z.div_unique _ _ _ (sm + 0x8000)); lia.
Qed.

Lemma decode_sums (sm se : Z) :
  -32768 <= sm <= 32767 -> -32768 <= se <= 32767 ->
  decEvalMg ((EVAL_ZERO + 65536 * se + sm) mod 2 ^ 32) = sm /\
  decEvalEg ((EVAL_ZERO + 65536 * se + sm) mod 2 ^ 32) = se.
Proof.
  intros Hm He. unfold decEvalMg, decEvalEg.
  destruct (halves sm se Hm He) as [H1 H2]. rewrite H1, H2. lia.
Qed.

Lemma single_term (mg eg : Z) :
  addScore EVAL_ZERO (E mg eg) = (EVAL_ZERO + 65536 * eg + mg) mod 2 ^ 32.
Proof.
  unfold addScore, u32, uw. rewrite E_mod, Z.add_mod_idemp_r by lia.
  f_equal. lia.
Qed.

Lemma running_ok_sums (terms : list (Z * Z)) (sm se : Z) :
  running_ok sm se terms = true ->
  -32767 <= sm <= 32767 -> -32767 <= se <= 32767 ->
  -32767 <= sm + sum_mg terms <= 32767 /\ -32767 <= se + sum_eg terms <= 32767.
Proof.
  revert sm se. induction terms as [| [mg eg] rest IH]; intros sm se Hok Hm He;
    simpl in *.
  - lia.
  - unfold in_half in Hok.
    repeat rewrite andb_true_iff in Hok. rewrite !Z.leb_le in Hok.
    destruct Hok as [[[H1 H2] [H3 H4]] Hrest].
    destruct (IH (sm + mg) (se + eg) Hrest) as [A B]; lia.
Qed.

End PackedFacts.

(** * Claims about the packed accumulator *)
Import Packed PackedFacts.

Example E_example : decEvalMg (addScore EVAL_ZERO (E (-5) 12)) = -5.
Proof. reflexivity. Qed.

Example accumulate_example :
  decEvalEg (accumulate [(3, -40); (-20, 7); (100, 0)]) = -33.
Proof. reflexivity. Qed.

(** C1: for every [(mg, eg)] in the signed 16-bit range, [EVAL_ZERO + E(mg, eg)]
    decodes back to [mg] and [eg]; and for any sequence of [E]-packed terms
    added into the accumulator with unsigned 32-bit addition, the decoded
    halves are the sums of the [mg] and of the [eg] components, provided every
    running half-sum stays within [±32767]. *)
Theorem packed_roundtrip :
  (forall mg eg : Z,
      -32768 <= mg <= 32767 -> -32768 <= eg <= 32767 ->
      decEvalMg (addScore EVAL_ZERO (E mg eg)) = mg /\
      decEvalEg (addScore EVAL_ZERO (E mg eg)) = eg) /\
  (forall terms : list (Z * Z),
      running_ok 0 0 terms = true ->
      decEvalMg (accumulate terms) = sum_mg terms /\
      decEvalEg (accumulate terms) = sum_eg terms).
Proof.
  split.
  - intros mg eg Hm He. rewrite single_term. apply decode_sums; lia.
  - intros terms Hok.
    destruct (running_ok_sums terms 0 0 Hok) as [Hm He]; try lia.
    rewrite accumulate_mod. apply decode_sums; lia.
Qed.

Lemma packed_roundtrip_witness :
  (decEvalMg (addScore EVAL_ZERO (E (-32768) (-32768))) = -32768 /\
   decEvalEg (addScore EVAL_ZERO (E (-32768) (-32768))) = -32768) /\
  (decEvalMg (accumulate [(300, -20); (-500, 45)]) = sum_mg [(300, -20); (-500, 45)] /\
   decEvalEg (accumulate [(300, -20); (-500, 45)]) = sum_eg [(300, -20); (-500, 45)]).
Proof.
  split.
  - apply (proj1 packed_roundtrip (-32768) (-32768)); lia.
  - apply (proj2 packed_roundtrip [(300, -20); (-500, 45)]). vm_compute. reflexivity.
Defined.

(** C2, as stated (midgame in the high half, endgame in the low half), fails:
    for [E(1, 0)] the high half of the accumulator is [0x8000], not [1 + 2^15]. *)
Lemma packed_halves_counterexample :
  ~ (Z.shiftr (addScore EVAL_ZERO (E 1 0)) 16 = 1 + 2 ^ 15 /\
     Z.land (addScore EVAL_ZERO (E 1 0)) 0xFFFF = 0 + 2 ^ 15).
Proof. vm_compute. intros [H _]. discriminate H. Qed.

(** C2 (amended): for every in-range [(mg, eg)], the LOW 16-bit half of
    [EVAL_ZERO + E(mg, eg)] is [mg + 2^15] and the HIGH 16-bit half is
    [eg + 2^15]. *)
Theorem packed_halves :
  forall mg eg : Z,
    -32768 <= mg <= 32767 -> -32768 <= eg <= 32767 ->
    Z.land (addScore EVAL_ZERO (E mg eg)) 0xFFFF = mg + 2 ^ 15 /\
    Z.shiftr (addScore EVAL_ZERO (E mg eg)) 16 = eg + 2 ^ 15.
Proof.
  intros mg eg Hm He. rewrite single_term. apply halves; lia.
Qed.

Lemma packed_halves_witness :
  Z.land (addScore EVAL_ZERO (E 1 0)) 0xFFFF = 1 + 2 ^ 15 /\
  Z.shiftr (addScore EVAL_ZERO (E 1 0)) 16 = 0 + 2 ^ 15.
Proof. apply (packed_halves 1 0); lia. Defined.

(** * Evaluation tables *)
Module TableFacts.
Import Packed EvalCommon.

Lemma rankOf_div (sq : Z) : rankOf sq = sq / 8.
Proof. unfold rankOf. rewrite Z.shiftr_div_pow2 by lia. reflexivity. Qed.

Lemma fileOf_mod (sq : Z) : fileOf sq = sq mod 8.
Proof. unfold fileOf. change 7 with (Z.ones 3). rewrite Z.land_ones by lia. reflexivity. Qed.

Lemma fileOf_range (sq : Z) : 0 <= fileOf sq < 8.
Proof. rewrite fileOf_mod. apply Z.mod_pos_bound. lia. Qed.

Lemma mirror_rank_file (sq : Z) :
  rankOf (mirrorSq sq) = rankOf sq /\ fileOf (mirrorSq sq) = 7 - fileOf sq.
Proof.
  unfold mirrorSq. rewrite !rankOf_div, !fileOf_mod.
  pose proof (Z.mod_pos_bound sq 8 ltac:(lia)).
  split.
  - symmetry. apply (Z.div_unique _ _ _ (7 - sq mod 8)); lia.
  - symmetry. apply (Z.mod_unique _ _ (sq / 8)); lia.
Qed.

Lemma halfBoardIndex_mirror (color sq : Z) :
  halfBoardIndex color (mirrorSq sq) = halfBoardIndex color sq.
Proof.
  unfold halfBoardIndex.
  destruct (mirror_rank_file sq) as [Hr Hf]. rewrite Hr, Hf.
  pose proof (fileOf_range sq).
  destruct (Z.ltb_spec (7 - fileOf sq) 4), (Z.ltb_spec (fileOf sq) 4); lia.
Qed.

Lemma psqt_mirror (pst : list (list (list Z))) (phase piece : nat) (color sq : Z) :
  psqt pst phase piece color (mirrorSq sq) = psqt pst phase piece color sq.
Proof. unfold psqt. rewrite halfBoardIndex_mirror. reflexivity. Qed.

Lemma fold_left_map_same {A B C : Type} (f : A -> B -> A) (g : C -> B) (h : C -> C)
    (l : list C) (a : A) :
  (forall acc x, f acc (g (h x)) = f acc (g x)) ->
  fold_left (fun acc x => f acc (g x)) (map h l) a = fold_left (fun acc x => f acc (g x)) l a.
Proof.
  intros Hf. revert a. induction l as [| x l IH]; intros a; simpl; [reflexivity |].
  rewrite Hf. apply IH.
Qed.

Section Mirror.
Variable pst : list (list (list Z)).
Variable pfb : list Score.
Hypothesis pfb_sym : forall f, 0 <= f < 8 -> nthZ pfb 0 (7 - f) = nthZ pfb 0 f.

Lemma tableScore_mirror (pieces : list (Z * nat * Z)) (passers : list (Z * Z)) :
  tableScore pst pfb (mirrorPieces pieces) (mirrorPassers passers) =
  tableScore pst pfb pieces passers.
Proof.
  unfold tableScore, mirrorPieces, mirrorPassers.
  assert (Hp : fold_left (pieceTerm pst) (map (fun '(c, p, sq) => (c, p, mirrorSq sq)) pieces)
                 EVAL_ZERO = fold_left (pieceTerm pst) pieces EVAL_ZERO).
  { apply (fold_left_map_same (pieceTerm pst) id).
    intros acc [[c p] sq]. unfold id, pieceTerm. rewrite !psqt_mirror. reflexivity. }
  rewrite Hp.
  apply (fold_left_map_same (passerTerm pfb) id).
  intros acc [c sq]. unfold id, passerTerm.
  destruct (mirror_rank_file sq) as [_ Hf]. rewrite Hf, pfb_sym by apply fileOf_range.
  reflexivity.
Qed.

End Mirror.

(** Scaling by [factor / maxScale] with [0 <= factor <= maxScale] does not
    increase the absolute value. *)
Lemma scaleScore_shrinks (m s f : Z) :
  0 < m -> 0 <= f <= m -> Z.abs (scaleScore m s f) <= Z.abs s.
Proof.
  intros Hm Hf. unfold scaleScore.
  rewrite <- Z.quot_abs by lia.
  rewrite Z.quot_div_nonneg by lia.
  rewrite (Z.abs_eq m) by lia.
  apply Z.div_le_upper_bound; [lia |].
  rewrite Z.abs_mul, (Z.abs_eq f) by lia. nia.
Qed.

End TableFacts.

(** * Claims about the evaluation tables *)
Import EvalCommon TableFacts.

Example egBishops_inst1_row0 : firstn 5 Inst1.egBishops = [-12; -10; -7; -15; -4].
Proof. reflexivity. Qed.

Example scale_example : scaleScore Inst1.MAX_SCALE_FACTOR (-100) 13 = -40.
Proof. reflexivity. Qed.

(** C6: every element of [OPPOSITE_BISHOP_SCALING] and of [PAWNLESS_SCALING]
    is at most [MAX_SCALE_FACTOR] (and non-negative), in both instantiations,
    so scaling a score by [factor / MAX_SCALE_FACTOR] never increases its
    absolute value. *)
Theorem scale_factors_bounded :
  (forall f : Z, In f (Inst1.OPPOSITE_BISHOP_SCALING ++ Inst1.PAWNLESS_SCALING) ->
     0 <= f <= Inst1.MAX_SCALE_FACTOR /\
     forall s : Z, Z.abs (scaleScore Inst1.MAX_SCALE_FACTOR s f) <= Z.abs s) /\
  (forall f : Z, In f (Inst2.OPPOSITE_BISHOP_SCALING ++ Inst2.PAWNLESS_SCALING) ->
     0 <= f <= Inst2.MAX_SCALE_FACTOR /\
     forall s : Z, Z.abs (scaleScore Inst2.MAX_SCALE_FACTOR s f) <= Z.abs s).
Proof.
  split; intros f Hin;
    assert (Hf : 0 <= f <= 32)
      by (simpl in Hin; repeat (destruct Hin as [<- | Hin]; [lia |]); contradiction);
    (split; [exact Hf | intros s; apply scaleScore_shrinks; [reflexivity | exact Hf]]).
Qed.

Lemma scale_factors_bounded_witness :
  (0 <= 29 <= Inst1.MAX_SCALE_FACTOR /\
   Z.abs (scaleScore Inst1.MAX_SCALE_FACTOR (-250) 29) <= Z.abs (-250)) /\
  (0 <= 23 <= Inst2.MAX_SCALE_FACTOR /\
   Z.abs (scaleScore Inst2.MAX_SCALE_FACTOR 517 23) <= Z.abs 517).
Proof.
  split.
  - destruct (proj1 scale_factors_bounded 29 ltac:(simpl; tauto)) as [H1 H2].
    split; [exact H1 | apply H2].
  - destruct (proj2 scale_factors_bounded 23 ltac:(simpl; tauto)) as [H1 H2].
    split; [exact H1 | apply H2].
Defined.

(** C7: in both instantiations the piece-square value of a square equals that
    of its file mirror for every phase, piece type and colour (half-board
    representation), [PASSER_FILE_BONUS[f] = PASSER_FILE_BONUS[7 - f]] for
    every file, and hence these table-driven terms give a horizontally
    mirrored position the same packed score. *)
Theorem file_symmetry :
  (forall (phase piece : nat) (color sq : Z),
     psqt Inst1.pieceSquareTable phase piece color (mirrorSq sq) =
     psqt Inst1.pieceSquareTable phase piece color sq) /\
  (forall f : Z, 0 <= f < 8 ->
     nthZ Inst1.PASSER_FILE_BONUS 0 f = nthZ Inst1.PASSER_FILE_BONUS 0 (7 - f)) /\
  (forall pieces passers,
     tableScore Inst1.pieceSquareTable Inst1.PASSER_FILE_BONUS
       (mirrorPieces pieces) (mirrorPassers passers) =
     tableScore Inst1.pieceSquareTable Inst1.PASSER_FILE_BONUS pieces passers) /\
  (forall (phase piece : nat) (color sq : Z),
     psqt Inst2.pieceSquareTable phase piece color (mirrorSq sq) =
     psqt Inst2.pieceSquareTable phase piece color sq) /\
  (forall f : Z, 0 <= f < 8 ->
     nthZ Inst2.PASSER_FILE_BONUS 0 f = nthZ Inst2.PASSER_FILE_BONUS 0 (7 - f)) /\
  (forall pieces passers,
     tableScore Inst2.pieceSquareTable Inst2.PASSER_FILE_BONUS
       (mirrorPieces pieces) (mirrorPassers passers) =
     tableScore Inst2.pieceSquareTable Inst2.PASSER_FILE_BONUS pieces passers).
Proof.
  assert (H1 : forall f, 0 <= f < 8 ->
            nthZ Inst1.PASSER_FILE_BONUS 0 f = nthZ Inst1.PASSER_FILE_BONUS 0 (7 - f)).
  { intros f Hf.
    assert (f = 0 \/ f = 1 \/ f = 2 \/ f = 3 \/ f = 4 \/ f = 5 \/ f = 6 \/ f = 7)
      as Hc by lia.
    repeat destruct Hc as [-> | Hc]; try reflexivity; subst f; reflexivity. }
  assert (H2 : forall f, 0 <= f < 8 ->
            nthZ Inst2.PASSER_FILE_BONUS 0 f = nthZ Inst2.PASSER_FILE_BONUS 0 (7 - f)).
  { intros f Hf.
    assert (f = 0 \/ f = 1 \/ f = 2 \/ f = 3 \/ f = 4 \/ f = 5 \/ f = 6 \/ f = 7)
      as Hc by lia.
    repeat destruct Hc as [-> | Hc]; try reflexivity; subst f; reflexivity. }
  repeat split; intros; try apply psqt_mirror; try apply H1; try apply H2; try assumption;
    apply tableScore_mirror; intros f Hf; symmetry; auto.
Qed.

Lemma file_symmetry_witness :
  nthZ Inst1.PASSER_FILE_BONUS 0 2 = nthZ Inst1.PASSER_FILE_BONUS 0 (7 - 2) /\
  nthZ Inst2.PASSER_FILE_BONUS 0 1 = nthZ Inst2.PASSER_FILE_BONUS 0 (7 - 1).
Proof.
  split.
  - apply (proj1 (proj2 file_symmetry) 2). lia.
  - apply (proj1 (proj2 (proj2 (proj2 (proj2 file_symmetry)))) 1). lia.
Defined.

(** C8, as stated, fails: [MAX_SCALE_FACTOR], [OPPOSITE_BISHOP_SCALING] and
    [PAWNLESS_SCALING] are NOT different between the two instantiations. *)
Lemma scaling_instances_counterexample :
  ~ ~ (Inst1.MAX_SCALE_FACTOR = Inst2.MAX_SCALE_FACTOR /\
       Inst1.OPPOSITE_BISHOP_SCALING = Inst2.OPPOSITE_BISHOP_SCALING /\
       Inst1.PAWNLESS_SCALING = Inst2.PAWNLESS_SCALING).
Proof. intros H. apply H. repeat split. Qed.

(** C8 (amended): the endgame scaling constants are identical in the two
    instantiations of [eval.h], while other hand-tuned constants differ
    between them (e.g. [PIECE_VALUES], [KING_TROPISM_VALUE] and the
    piece-square tables). *)
Theorem scaling_instances :
  Inst1.MAX_SCALE_FACTOR = Inst2.MAX_SCALE_FACTOR /\
  Inst1.OPPOSITE_BISHOP_SCALING = Inst2.OPPOSITE_BISHOP_SCALING /\
  Inst1.PAWNLESS_SCALING = Inst2.PAWNLESS_SCALING /\
  Inst1.PIECE_VALUES <> Inst2.PIECE_VALUES /\
  Inst1.KING_TROPISM_VALUE <> Inst2.KING_TROPISM_VALUE /\
  Inst1.pieceSquareTable <> Inst2.pieceSquareTable.
Proof. vm_compute. repeat split; discriminate. Qed.

(** C9: in both instantiations the first row of the endgame bishop table lacks
    its terminating comma.  The source list then has 31 clauses; the fourth
    compiled element is the sum of the fourth and fifth intended entries
    ([-8 - 7 = -15], resp. [-4 - 8 = -12]); the intended entries 5..31 sit at
    indices 4..30; index 31 is zero-initialised; and the compiled table differs
    from the intended 32-entry table. *)
Theorem eg_bishops_missing_comma :
  (length (nth 2 (nth EG Inst1.pieceSquareTable_src []) []) = 31%nat /\
   length Inst1.egBishops = 32%nat /\ length Inst1.egBishops_intended = 32%nat /\
   firstn 3 Inst1.egBishops = firstn 3 Inst1.egBishops_intended /\
   nth 3 Inst1.egBishops 0 = -15 /\
   nth 3 Inst1.egBishops 0 = nth 3 Inst1.egBishops_intended 0 + nth 4 Inst1.egBishops_intended 0 /\
   firstn 27 (skipn 4 Inst1.egBishops) = skipn 5 Inst1.egBishops_intended /\
   nth 31 Inst1.egBishops 0 = 0 /\
   Inst1.egBishops <> Inst1.egBishops_intended) /\
  (length (nth 2 (nth EG Inst2.pieceSquareTable_src []) []) = 31%nat /\
   length Inst2.egBishops = 32%nat /\ length Inst2.egBishops_intended = 32%nat /\
   firstn 3 Inst2.egBishops = firstn 3 Inst2.egBishops_intended /\
   nth 3 Inst2.egBishops 0 = -12 /\
   nth 3 Inst2.egBishops 0 = nth 3 Inst2.egBishops_intended 0 + nth 4 Inst2.egBishops_intended 0 /\
   firstn 27 (skipn 4 Inst2.egBishops) = skipn 5 Inst2.egBishops_intended /\
   nth 31 Inst2.egBishops 0 = 0 /\
   Inst2.egBishops <> Inst2.egBishops_intended).
Proof. vm_compute. repeat split; discriminate. Qed.

(** * Claims about transposition-table entries *)
Module TTFacts.
Import TT HashTable.

Lemma iter_incrementAge (n : nat) (h : Hash) :
  age (Nat.iter (S n) incrementAge h) = (age h + Z.of_nat (S n)) mod 256.
Proof.
  induction n as [| n IH].
  - reflexivity.
  - change (Nat.iter (S (S n)) incrementAge h)
      with (incrementAge (Nat.iter (S n) incrementAge h)).
    unfold incrementAge at 1. cbn [age]. rewrite IH.
    unfold u8, uw. change (2 ^ 8) with 256.
    rewrite Z.add_mod_idemp_l by lia. f_equal. lia.
Qed.

End TTFacts.
Import TT HashTable TTFacts.

Example ctor_example : score (HashData_ctor 5 0 40000 PV_NODE 3) = -25536.
Proof. reflexivity. Qed.

(** C3, as stated (the score is clamped), fails: a score of [32768] is stored
    as [-32768], not as [32767]. *)
Lemma hashdata_score_counterexample :
  score (HashData_ctor 0 0 32768 PV_NODE 0) <> Z.max (-32768) (Z.min 32767 32768).
Proof. vm_compute. discriminate. Qed.

(** C3 (amended): the constructor narrows the score to [int16_t] with
    two's-complement wrap-around, i.e. [s] is stored as
    [(s + 2^15) mod 2^16 - 2^15]; a score already within [[-32768, 32767]]
    is stored unchanged (so agrees with the clamped value there). *)
Theorem hashdata_score :
  forall (d : Z) (m : Move) (s n a : Z),
    score (HashData_ctor d m s n a) = (s + 32768) mod 65536 - 32768 /\
    (-32768 <= s <= 32767 ->
     score (HashData_ctor d m s n a) = s /\
     score (HashData_ctor d m s n a) = Z.max (-32768) (Z.min 32767 s)).
Proof.
  intros d m s n a. cbn [score HashData_ctor]. unfold i16.
  split.
  - rewrite sw_spec by lia. reflexivity.
  - intros Hs. rewrite sw_small by (simpl; lia). lia.
Qed.

Lemma hashdata_score_witness :
  score (HashData_ctor 3 0 (-200) CUT_NODE 1) = -200 /\
  score (HashData_ctor 3 0 (-200) CUT_NODE 1) = Z.max (-32768) (Z.min 32767 (-200)).
Proof. apply (proj2 (hashdata_score 3 0 (-200) CUT_NODE 1)). lia. Defined.

(** C10: the constructor narrows the depth to [int8_t] (wrap-around modulo
    [2^8]) and stores the age as a [uint8_t]; the table's generation advanced
    by [incrementAge] wraps modulo 256, so after 256 new searches it is back to
    its value, and an entry written then carries the same age as one written
    in the current generation. *)
Theorem hash_age_wraps :
  (forall (d : Z) (m : Move) (s n a : Z),
     depth (HashData_ctor d m s n a) = (d + 128) mod 256 - 128 /\
     0 <= TT.age (HashData_ctor d m s n a) < 256) /\
  (forall h : Hash,
     0 <= getAge h < 256 ->
     getAge (Nat.iter 256 incrementAge h) = getAge h /\
     forall (d d' : Z) (m m' : Move) (s s' n n' : Z),
       TT.age (HashData_ctor d m s n (getAge h)) =
       TT.age (HashData_ctor d' m' s' n' (getAge (Nat.iter 256 incrementAge h)))).
Proof.
  split.
  - intros d m s n a. cbn [depth TT.age HashData_ctor]. unfold i8, u8, uw.
    rewrite sw_spec by lia. split; [reflexivity |].
    apply Z.mod_pos_bound. reflexivity.
  - intros h Hh.
    assert (Hit : getAge (Nat.iter 256 incrementAge h) = getAge h).
    { unfold getAge in *. rewrite (iter_incrementAge 255).
      change (Z.of_nat (S 255)) with (1 * 256).
      rewrite Z.mod_add, Z.mod_small by lia. reflexivity. }
    split; [exact Hit |].
    intros. rewrite Hit. reflexivity.
Qed.

Lemma hash_age_wraps_witness :
  getAge (Nat.iter 256 incrementAge (mkHash [] 1024 250)) = getAge (mkHash [] 1024 250) /\
  TT.age (HashData_ctor 7 0 10 PV_NODE (getAge (mkHash [] 1024 250))) =
  TT.age (HashData_ctor 12 0 (-3) ALL_NODE
            (getAge (Nat.iter 256 incrementAge (mkHash [] 1024 250)))).
Proof.
  destruct (proj2 hash_age_wraps (mkHash [] 1024 250) ltac:(unfold getAge; simpl; lia))
    as [H1 H2].
  split; [exact H1 | apply H2].
Defined.

(** * Further properties of the packed score and of [HashData] *)
Module PackedMore.
Import Packed PackedFacts.

Lemma decEvalMg_mod (v : Z) : decEvalMg v = v mod 65536 - 32768.
Proof. unfold decEvalMg. change 0xFFFF with (Z.ones 16). rewrite Z.land_ones by lia. reflexivity. Qed.

Lemma decEvalEg_div (v : Z) : decEvalEg v = v / 65536 - 32768.
Proof. unfold decEvalEg. rewrite Z.shiftr_div_pow2 by lia. reflexivity. Qed.

(** The two 16-bit halves of a value reduced modulo [2^32]. *)
Lemma halves_mod32 (x : Z) :
  (x mod 2 ^ 32) mod 65536 = x mod 65536 /\
  (x mod 2 ^ 32) / 65536 = (x / 65536) mod 65536.
Proof.
  split.
  - apply Z.mod_mod_divide. exists 65536. reflexivity.
  - pose proof (Z.div_mod x 65536 ltac:(lia)) as Hx.
    pose proof (Z.mod_pos_bound x 65536 ltac:(lia)) as Hr.
    pose proof (Z.div_mod (x / 65536) 65536 ltac:(lia)) as Hy.
    pose proof (Z.div_div x 65536 65536 ltac:(lia) ltac:(lia)) as Hq.
    pose proof (Z.mod_eq x (2 ^ 32) ltac:(lia)) as Hm.
    change (2 ^ 32) with (65536 * 65536) in *.
    symmetry. apply (Z.div_unique _ _ _ (x mod 65536)); [lia |].
    rewrite Hm, <- Hq. lia.
Qed.

(** Decoding an accumulator whose halves have left the 16-bit range. *)
Lemma decode_general (a b : Z) :
  decEvalMg ((EVAL_ZERO + 65536 * b + a) mod 2 ^ 32) = i16 a /\
  decEvalEg ((EVAL_ZERO + 65536 * b + a) mod 2 ^ 32) = i16 (b + (a + 32768) / 65536).
Proof.
  rewrite decEvalMg_mod, decEvalEg_div.
  destruct (halves_mod32 (EVAL_ZERO + 65536 * b + a)) as [Hl Hh].
  rewrite Hl, Hh. unfold i16. rewrite !sw_spec by lia.
  change (2 ^ (16 - 1)) with 32768. change (2 ^ 16) with 65536.
  unfold EVAL_ZERO.
  replace (2147516416 + 65536 * b + a) with ((a + 32768) + (b + 32768) * 65536) by lia.
  split.
  - rewrite Z.mod_add by lia. reflexivity.
  - rewrite Z.div_add by lia.
    f_equal. f_equal. lia.
Qed.

Lemma sw_range (w x : Z) : 0 < w -> - 2 ^ (w - 1) <= sw w x < 2 ^ (w - 1).
Proof.
  intros Hw. rewrite sw_spec by lia.
  assert (Hw2 : 2 ^ w = 2 * 2 ^ (w - 1)).
  { rewrite <- Z.pow_succ_r by lia. f_equal. lia. }
  assert (Hp : 0 < 2 ^ (w - 1)) by (apply Z.pow_pos_nonneg; lia).
  pose proof (Z.mod_pos_bound (x + 2 ^ (w - 1)) (2 ^ w) ltac:(lia)). lia.
Qed.

End PackedMore.

Module HashDataFacts.
Import TT PackedMore.

Lemma sw_id_iff (w x : Z) : 0 < w -> (sw w x = x <-> - 2 ^ (w - 1) <= x < 2 ^ (w - 1)).
Proof.
  intros Hw. split.
  - intros H. rewrite <- H. apply sw_range. exact Hw.
  - intros H. apply sw_small; assumption.
Qed.

Lemma uw_id_iff (w x : Z) : 0 <= w -> (uw w x = x <-> 0 <= x < 2 ^ w).
Proof.
  intros Hw. unfold uw.
  assert (Hp : 0 < 2 ^ w) by (apply Z.pow_pos_nonneg; lia).
  split.
  - intros H. rewrite <- H. apply Z.mod_pos_bound. exact Hp.
  - intros H. apply Z.mod_small. exact H.
Qed.

End HashDataFacts.

Import PackedMore HashDataFacts.

(** Packing is additive: adding (resp. subtracting) two [E]-packed scores in
    unsigned 32-bit arithmetic gives the packing of the component-wise sums
    (resp. differences), for any integer components. *)
Theorem E_add_sub :
  forall a b c d : Z,
    addScore (E a b) (E c d) = E (a + c) (b + d) /\
    subScore (E a b) (E c d) = E (a - c) (b - d).
Proof.
  intros a b c d. unfold addScore, subScore, u32, uw. rewrite !E_mod.
  split.
  - rewrite <- Z.add_mod by lia. f_equal. lia.
  - rewrite <- Zminus_mod. f_equal. lia.
Qed.

(** Any [Score] decodes to two values in the signed 16-bit range. *)
Theorem decode_range :
  forall v : Score, 0 <= v < 2 ^ 32 ->
    -32768 <= decEvalMg v <= 32767 /\ -32768 <= decEvalEg v <= 32767.
Proof.
  intros v Hv. rewrite decEvalMg_mod, decEvalEg_div.
  pose proof (Z.mod_pos_bound v 65536 ltac:(lia)).
  assert (0 <= v / 65536 < 65536).
  { split; [apply Z.div_pos; lia | apply Z.div_lt_upper_bound; lia]. }
  lia.
Qed.

Lemma decode_range_witness :
  -32768 <= decEvalMg 0xFFFFFFFF <= 32767 /\ -32768 <= decEvalEg 0xFFFFFFFF <= 32767.
Proof. apply decode_range. lia. Defined.

(** Decoding then re-encoding is the identity on [Score]: every 32-bit value is
    [EVAL_ZERO + E(decEvalMg v, decEvalEg v)]. *)
Theorem decode_reencode :
  forall v : Score, 0 <= v < 2 ^ 32 ->
    addScore EVAL_ZERO (E (decEvalMg v) (decEvalEg v)) = v.
Proof.
  intros v Hv. rewrite single_term, decEvalMg_mod, decEvalEg_div.
  pose proof (Z.div_mod v 65536 ltac:(lia)).
  unfold EVAL_ZERO.
  replace (2147516416 + 65536 * (v / 65536 - 32768) + (v mod 65536 - 32768)) with v by lia.
  apply Z.mod_small. exact Hv.
Qed.

Lemma decode_reencode_witness :
  addScore EVAL_ZERO (E (decEvalMg 0x1234ABCD) (decEvalEg 0x1234ABCD)) = 0x1234ABCD.
Proof. apply decode_reencode. lia. Defined.

(** Without any range hypothesis, the decoded midgame half of an accumulator
    is the sum of the midgame terms wrapped to 16 bits, and the decoded
    endgame half is the sum of the endgame terms plus the carry (or borrow)
    out of the midgame half, wrapped to 16 bits. *)
Theorem accumulate_wraps :
  forall terms : list (Z * Z),
    decEvalMg (accumulate terms) = i16 (sum_mg terms) /\
    decEvalEg (accumulate terms) = i16 (sum_eg terms + (sum_mg terms + 32768) / 65536).
Proof. intros terms. rewrite accumulate_mod. apply decode_general. Qed.

(** Adding a pure endgame term [E(0, eg)] never changes the decoded midgame
    value of an accumulator. *)
Theorem eg_term_keeps_mg :
  forall (v : Score) (eg : Z), decEvalMg (addScore v (E 0 eg)) = decEvalMg v.
Proof.
  intros v eg. unfold addScore, u32, uw. rewrite E_mod, !decEvalMg_mod.
  rewrite Z.add_mod_idemp_r by lia.
  rewrite (proj1 (halves_mod32 _)).
  replace (v + (65536 * eg + 0)) with (v + eg * 65536) by lia.
  rewrite Z.mod_add by lia. reflexivity.
Qed.

(** The order in which feature terms are accumulated does not matter. *)
Theorem accumulate_perm :
  forall terms terms' : list (Z * Z),
    Permutation terms terms' -> accumulate terms = accumulate terms'.
Proof.
  intros terms terms' Hp. rewrite !accumulate_mod.
  assert (sum_mg terms = sum_mg terms' /\ sum_eg terms = sum_eg terms') as [H1 H2].
  { induction Hp; unfold sum_mg, sum_eg in *; simpl; lia. }
  rewrite H1, H2. reflexivity.
Qed.

Lemma accumulate_perm_witness :
  accumulate [(5, -3); (-70, 12); (300, 1)] = accumulate [(300, 1); (5, -3); (-70, 12)].
Proof.
  apply accumulate_perm.
  apply Permutation_sym.
  exact (Permutation_cons_append [(5, -3); (-70, 12)] (300, 1)).
Defined.

(** The [HashData] constructor stores each argument unchanged exactly when it
    fits the field's type: [score] in [int16_t], [depth] in [int8_t], and
    [nodeType] and [age] in [uint8_t]; the move is always stored as given. *)
Theorem hashdata_fields_exact :
  forall (d : Z) (m : Move) (s n a : Z),
    (score (HashData_ctor d m s n a) = s <-> -32768 <= s <= 32767) /\
    (depth (HashData_ctor d m s n a) = d <-> -128 <= d <= 127) /\
    (nodeType (HashData_ctor d m s n a) = n <-> 0 <= n <= 255) /\
    (TT.age (HashData_ctor d m s n a) = a <-> 0 <= a <= 255) /\
    move (HashData_ctor d m s n a) = m.
Proof.
  intros d m s n a. cbn [score depth nodeType TT.age move HashData_ctor].
  unfold i16, i8, u8.
  rewrite (sw_id_iff 16), (sw_id_iff 8), (uw_id_iff 8 n), (uw_id_iff 8 a) by lia.
  change (2 ^ (16 - 1)) with 32768. change (2 ^ (8 - 1)) with 128. change (2 ^ 8) with 256.
  repeat split; try lia; reflexivity.
Qed.

Lemma hashdata_fields_exact_witness :
  score (HashData_ctor (-5) 77 (-32768) NO_NODE_INFO 255) = -32768 /\
  depth (HashData_ctor (-5) 77 (-32768) NO_NODE_INFO 255) = -5.
Proof.
  destruct (hashdata_fields_exact (-5) 77 (-32768) NO_NODE_INFO 255) as [Hs [Hd _]].
  split; [apply Hs | apply Hd]; lia.
Defined.
